(** * word-connector: the reveal engines of the two party-game helpers

    A shallow embedding of the game logic of [main.py] (Chain Reaction:
    class [GameState] and [App._is_puzzle_solved]) and of [pyramid.py]
    ($100,000 Pyramid: class [GameState] and the host actions of
    [HostWindow] that touch it), followed by the properties of the
    specification that concern them.

    Conventions.
    - A Python [int] is a [Z]; a Python [str] is a [string].  The text
      functions [strip] and [upper] follow Python on ASCII text (code points
      0..127); a byte above 127 is neither white space nor changed by [upper].
    - A Python list is a [list]; [l[i]] follows Python's indexing, negative
      indices counting from the end and anything else raising [IndexError].
    - The methods of the chain engine mutate [self] and may raise: they live
      in a state-and-exception monad whose outcome always carries the state
      the object is left in.
    - Widgets, sounds and status lines are not part of either [GameState];
      the host actions of the pyramid are modelled by their effect on the
      one [GameState] object that host and display share. *)

From Stdlib Require Import ZArith Ascii String List Bool Lia.
From stdpp Require Import base list strings.

Local Open Scope Z_scope.

(** ** Python values *)

Module Py.

Inductive exn : Type := ValueError | IndexError.

(** What a call leaves behind: a value or an exception, and the state. *)
Inductive outcome (St A : Type) : Type :=
| Ret (a : A) (s : St)
| Raise (e : exn) (s : St).
Arguments Ret {St A} a s.
Arguments Raise {St A} e s.

Definition M (St A : Type) : Type := St -> outcome St A.

Definition ret {St A} (a : A) : M St A := fun s => Ret a s.
Definition raise {St A} (e : exn) : M St A := fun s => Raise e s.
Definition bind {St A B} (c : M St A) (k : A -> M St B) : M St B :=
  fun s => match c s with
           | Ret a s' => k a s'
           | Raise e s' => Raise e s'
           end.
Definition get {St} : M St St := fun s => Ret s s.
Definition put {St} (s' : St) : M St unit := fun _ => Ret tt s'.

Definition state_of {St A} (o : outcome St A) : St :=
  match o with Ret _ s => s | Raise _ s => s end.

(** [l[i]] for a list of length [n]: the position that index [i] denotes. *)
Definition norm_index (n : nat) (i : Z) : option nat :=
  if (0 <=? i) && (i <? Z.of_nat n) then Some (Z.to_nat i)
  else if (- Z.of_nat n <=? i) && (i <? 0) then Some (Z.to_nat (Z.of_nat n + i))
  else None.

(** [l[i]] read. *)
Definition getitem {St A} (l : list A) (i : Z) : M St A :=
  match norm_index (length l) i with
  | Some k => match l !! k with
              | Some x => ret x
              | None => raise IndexError
              end
  | None => raise IndexError
  end.

(** [l[i] = x]: the updated list, or [None] for [IndexError]. *)
Definition setitem {A} (l : list A) (i : Z) (x : A) : option (list A) :=
  match norm_index (length l) i with
  | Some k => Some (<[k := x]> l)
  | None => None
  end.

(** [all(l)] on booleans. *)
Definition all (l : list bool) : bool := forallb (fun b => b) l.

(** [enumerate(l)]. *)
Definition enumerate {A} (l : list A) : list (nat * A) := imap pair l.

(** [str.isspace] on one ASCII character: TAB, LF, VT, FF, CR, the four
    separators FS, GS, RS, US, and the space. *)
Definition isspace (c : ascii) : bool :=
  let n := nat_of_ascii c in
  ((9 <=? n)%nat && (n <=? 13)%nat) || ((28 <=? n)%nat && (n <=? 32)%nat).

Fixpoint lstrip (s : string) : string :=
  match s with
  | EmptyString => EmptyString
  | String c s' => if isspace c then lstrip s' else s
  end.

Fixpoint rstrip (s : string) : string :=
  match s with
  | EmptyString => EmptyString
  | String c s' =>
      match rstrip s' with
      | EmptyString => if isspace c then EmptyString else String c EmptyString
      | r => String c r
      end
  end.

(** [s.strip()]. *)
Definition strip (s : string) : string := lstrip (rstrip s).

Definition upper_char (c : ascii) : ascii :=
  let n := nat_of_ascii c in
  if (97 <=? n)%nat && (n <=? 122)%nat then ascii_of_nat (n - 32) else c.

(** [s.upper()]. *)
Fixpoint upper (s : string) : string :=
  match s with
  | EmptyString => EmptyString
  | String c s' => String (upper_char c) (upper s')
  end.

(** [str.splitlines()] on ASCII text: LF, VT, FF, CR, FS, GS and RS end a
    line, CR LF counts as one break, and no empty last line is produced. *)
Definition is_linebreak (c : ascii) : bool :=
  let n := nat_of_ascii c in
  ((10 <=? n)%nat && (n <=? 13)%nat) || ((28 <=? n)%nat && (n <=? 30)%nat).

Fixpoint splitlines_aux (cur : string) (s : string) : list string :=
  match s with
  | EmptyString =>
      match cur with EmptyString => [] | _ => [String.rev cur] end
  | String c s' =>
      if is_linebreak c then
        String.rev cur ::
          match s' with
          | String c' s'' =>
              if (nat_of_ascii c =? 13)%nat && (nat_of_ascii c' =? 10)%nat
              then splitlines_aux EmptyString s''
              else splitlines_aux EmptyString s'
          | EmptyString => []
          end
      else splitlines_aux (String c cur) s'
  end.

Definition splitlines (s : string) : list string :=
  splitlines_aux EmptyString s.

End Py.

Notation "x <- c ;;; k" := (Py.bind c (fun x => k))
  (at level 200, c at level 100, k at level 200, right associativity,
   only parsing).

(** ** Chain Reaction: [main.py] *)

Module Chain.
Import Py.

(** [SAMPLE_CHAIN]. *)
Definition SAMPLE_CHAIN : list string :=
  ["SOLAR"; "POWER"; "PLANT"; "FOOD"; "CHAIN"; "LINK"; "CARD"]%string.

(** The attributes of [GameState]: the words, one list of reveal flags per
    word, and one withheld flag per word. *)
Record GameState : Type := mkGameState {
  words : list string;
  revealed : list (list bool);
  withheld_last : list bool
}.

Definition set_revealed (r : list (list bool)) (s : GameState) : GameState :=
  mkGameState (words s) r (withheld_last s).
Definition set_withheld_last (wl : list bool) (s : GameState) : GameState :=
  mkGameState (words s) (revealed s) wl.

(** [idx in (0, len(self.words) - 1)]. *)
Definition in_ends (n : nat) (idx : Z) : bool :=
  (idx =? 0) || (idx =? Z.of_nat n - 1).

(** [GameState.__init__]: fewer than three words raise [ValueError]; the
    words are trimmed and uppercased, the first and the last get flags that
    are all [True], the others flags that are all [False]. *)
Definition __init__ (ws : list string) : exn + GameState :=
  if (length ws <? 3)%nat then inl ValueError
  else
    let words := map (fun w => upper (strip w)) ws in
    let revealed :=
      imap (fun i w =>
              if in_ends (length words) (Z.of_nat i)
              then replicate (String.length w) true
              else replicate (String.length w) false) words in
    inr (mkGameState words revealed (replicate (length words) false)).

(** [[ch for ch, f in zip(w, flags) if f]] joined into a string. *)
Definition shown_letters (w : string) (flags : list bool) : string :=
  string_of_list_ascii
    (fst <$> filter (fun p => p.2 = true) (zip (list_ascii_of_string w) flags)).

(** [GameState.word_mask]. *)
Definition word_mask (idx : Z) : M GameState string :=
  self <- get ;;;
  w <- getitem (words self) idx ;;;
  flags <- getitem (revealed self) idx ;;;
  if in_ends (length (words self)) idx then ret w
  else
    let s := shown_letters w flags in
    wl <- getitem (withheld_last self) idx ;;;
    if wl && negb (all flags) then
      match s with
      | EmptyString => ret "?"%string
      | _ => ret (s ++ " ?")%string
      end
    else ret s.

(** [[i for i, f in enumerate(flags) if not f]]. *)
Definition hidden_positions (flags : list bool) : list nat :=
  fst <$> filter (fun p => p.2 = false) (enumerate flags).

(** [self.withheld_last[idx] = v]. *)
Definition assign_withheld_last (idx : Z) (v : bool) : M GameState unit :=
  self <- get ;;;
  match setitem (withheld_last self) idx v with
  | Some wl => put (set_withheld_last wl self)
  | None => raise IndexError
  end.

(** [self.revealed[idx] = flags]. *)
Definition assign_revealed (idx : Z) (flags : list bool) : M GameState unit :=
  self <- get ;;;
  match setitem (revealed self) idx flags with
  | Some r => put (set_revealed r self)
  | None => raise IndexError
  end.

(** [GameState.reveal_next_letter].  [flags] is the very list stored at
    [self.revealed[idx]], so [flags[next_i] = True] updates the state. *)
Definition reveal_next_letter (idx : Z) : M GameState (bool * bool) :=
  self <- get ;;;
  if in_ends (length (words self)) idx then ret (false, false)
  else
    flags <- getitem (revealed self) idx ;;;
    match hidden_positions flags with
    | [] => ret (false, false)
    | [_] =>
        _ <- assign_withheld_last idx true ;;;
        ret (false, true)
    | next_i :: _ =>
        _ <- assign_revealed idx (<[next_i := true]> flags) ;;;
        ret (true, false)
    end.

(** [GameState.is_word_complete]. *)
Definition is_word_complete (idx : Z) : M GameState bool :=
  self <- get ;;;
  flags <- getitem (revealed self) idx ;;;
  ret (all flags).

(** [GameState.try_guess]. *)
Definition try_guess (idx : Z) (guess : string) : M GameState bool :=
  self <- get ;;;
  target <- getitem (words self) idx ;;;
  if String.eqb (upper (strip guess)) target then
    _ <- assign_revealed idx (replicate (String.length target) true) ;;;
    _ <- assign_withheld_last idx false ;;;
    ret true
  else ret false.

(** The loop of [App._is_puzzle_solved] over [range(1, len(words) - 1)]. *)
Fixpoint all_complete (idxs : list nat) : M GameState bool :=
  match idxs with
  | [] => ret true
  | i :: rest =>
      c <- is_word_complete (Z.of_nat i) ;;;
      if negb c then ret false else all_complete rest
  end.

(** [range(1, n - 1)]. *)
Definition interior (n : nat) : list nat := seq 1 (n - 2).

(** [App._is_puzzle_solved], on the attribute [self.game] of the
    application, which is [None] until a chain is loaded. *)
Definition _is_puzzle_solved : M (option GameState) bool :=
  fun game =>
    match game with
    | None => Ret false None
    | Some g =>
        match all_complete (interior (length (words g))) g with
        | Ret b g' => Ret b (Some g')
        | Raise e g' => Raise e (Some g')
        end
    end.

(** [App.load_chain_from_text], as far as the game is concerned: the blank
    lines are dropped, the others trimmed, and fewer than three raise. *)
Definition load_chain_from_text (text : string) : exn + GameState :=
  let lines :=
    strip <$> filter (fun ln => strip ln <> EmptyString) (splitlines text) in
  if (length lines <? 3)%nat then inl ValueError else __init__ lines.

(** The two mutating operations of the engine, and runs of them.  A call
    that raises leaves the object as the exception found it. *)
Inductive op : Type :=
| RevealNextLetter (idx : Z)
| TryGuess (idx : Z) (guess : string).

Definition step (s : GameState) (o : op) : GameState :=
  match o with
  | RevealNextLetter idx => state_of (reveal_next_letter idx s)
  | TryGuess idx guess => state_of (try_guess idx guess s)
  end.

Definition run (s : GameState) (ops : list op) : GameState :=
  fold_left step ops s.

(** The number of reveal flags that are still false. *)
Definition hidden_count (flags : list bool) : nat :=
  length (filter (fun f => f = false) flags).

(** The shape every state of the engine has: one flag list and one withheld
    flag per word, and at least three words. *)
Definition consistent (s : GameState) : Prop :=
  (3 <= length (words s))%nat /\
  length (revealed s) = length (words s) /\
  length (withheld_last s) = length (words s).

(** One reveal flag per letter. *)
Definition flags_fit (s : GameState) : Prop :=
  forall k w flags,
    words s !! k = Some w -> revealed s !! k = Some flags ->
    length flags = String.length w.

(** Position [k] is the first or the last word. *)
Definition end_position (s : GameState) (k : nat) : Prop :=
  k = 0%nat \/ k = (length (words s) - 1)%nat.

(** The first and the last word are fully revealed and not withheld. *)
Definition endpoints_open (s : GameState) : Prop :=
  forall k, end_position s k ->
    (exists w, words s !! k = Some w /\
               revealed s !! k = Some (replicate (String.length w) true)) /\
    withheld_last s !! k = Some false.

(** A withheld word has exactly one hidden letter. *)
Definition withheld_sound (s : GameState) : Prop :=
  forall k flags,
    withheld_last s !! k = Some true -> revealed s !! k = Some flags ->
    hidden_count flags = 1%nat.

Definition Inv (s : GameState) : Prop :=
  consistent s /\ flags_fit s /\ endpoints_open s /\ withheld_sound s.

(** The state that [GameState(SAMPLE_CHAIN)] builds. *)
Definition sample_game : GameState :=
  mkGameState SAMPLE_CHAIN
    [replicate 5 true; replicate 5 false; replicate 5 false; replicate 4 false;
     replicate 5 false; replicate 4 false; replicate 4 true]
    (replicate 7 false).

End Chain.

(** ** $100,000 Pyramid: [pyramid.py] *)

Module Pyramid.
Import Py.

(** The dataclass [GameState]. *)
Record GameState : Type := mkGameState {
  prompts : list string;
  correct : list bool;
  remaining_seconds : Z;
  timer_running : bool;
  reveal_upto : Z
}.

(** [GameState()], with the defaults of the fields. *)
Definition default : GameState :=
  mkGameState (replicate 6 ""%string) (replicate 6 false) 60 false 0.

Definition set_prompts_field (p : list string) (s : GameState) : GameState :=
  mkGameState p (correct s) (remaining_seconds s) (timer_running s) (reveal_upto s).
Definition set_correct_field (c : list bool) (s : GameState) : GameState :=
  mkGameState (prompts s) c (remaining_seconds s) (timer_running s) (reveal_upto s).
Definition set_remaining_seconds (n : Z) (s : GameState) : GameState :=
  mkGameState (prompts s) (correct s) n (timer_running s) (reveal_upto s).
Definition set_timer_running (b : bool) (s : GameState) : GameState :=
  mkGameState (prompts s) (correct s) (remaining_seconds s) b (reveal_upto s).
Definition set_reveal_upto_field (n : Z) (s : GameState) : GameState :=
  mkGameState (prompts s) (correct s) (remaining_seconds s) (timer_running s) n.

(** [GameState.all_correct]. *)
Definition all_correct (s : GameState) : bool := all (correct s).

(** The loop of [GameState.current_index] over [enumerate(self.correct)]. *)
Fixpoint first_not_ok (l : list (nat * bool)) : Z :=
  match l with
  | [] => -1
  | (i, ok) :: rest => if negb ok then Z.of_nat i else first_not_ok rest
  end.

(** [GameState.current_index]. *)
Definition current_index (s : GameState) : Z :=
  first_not_ok (enumerate (correct s)).

(** The display holds the same [GameState] object as the host, so its
    setters act on the one state. *)

(** [DisplayWindow.set_prompts]: [self.state.prompts = prompts[:]]. *)
Definition set_prompts (p : list string) (s : GameState) : GameState :=
  set_prompts_field p s.

(** [DisplayWindow.set_correct] at a position of the list. *)
Definition set_correct (index : nat) (value : bool) (s : GameState) : GameState :=
  set_correct_field (<[index := value]> (correct s)) s.

(** [DisplayWindow.set_reveal_upto]: the cursor is clamped to 0..5. *)
Definition set_reveal_upto (upto_idx : Z) (s : GameState) : GameState :=
  set_reveal_upto_field (Z.max 0 (Z.min 5 upto_idx)) s.

(** [HostWindow.send_to_display]; [entries] is what the six entry fields
    hold. *)
Definition send_to_display (entries : list string) (s : GameState) : GameState :=
  let s := set_prompts_field entries s in
  let cur := current_index s in
  let s := set_reveal_upto_field (if cur >=? 0 then cur else 5) s in
  let s := set_prompts entries s in
  set_reveal_upto (reveal_upto s) s.

(** [HostWindow.clear_entries]. *)
Definition clear_entries (s : GameState) : GameState :=
  send_to_display (replicate 6 ""%string) s.

(** [HostWindow.unmark_all]. *)
Definition unmark_all (s : GameState) : GameState :=
  set_reveal_upto_field 0 (set_correct_field (replicate 6 false) s).

(** [HostWindow.stop_timer]. *)
Definition stop_timer (s : GameState) : GameState := set_timer_running false s.

(** [HostWindow._do_all_six]: of its steps only [stop_timer] touches the
    state. *)
Definition _do_all_six (s : GameState) : GameState := stop_timer s.

(** [HostWindow.mark_correct].  Past the two guards [idx] is
    [current_index()], a position of [correct], so neither the read nor
    the writes at [idx] can raise.  The status line that the second guard
    writes belongs to the host window, not to the state. *)
Definition mark_correct (idx : Z) (s : GameState) : GameState :=
  let cur := current_index s in
  if cur =? -1 then s
  else if negb (idx =? cur) then s
  else
    match correct s !! Z.to_nat idx with
    | Some false =>
        let s := set_correct_field (<[Z.to_nat idx := true]> (correct s)) s in
        let s :=
          if idx <? 5
          then set_reveal_upto_field (Z.max (reveal_upto s) (idx + 1)) s
          else s in
        let s := set_correct (Z.to_nat idx) true s in
        let s := set_reveal_upto (reveal_upto s) s in
        if all_correct s then _do_all_six s else s
    | _ => s
    end.

(** [HostWindow._tick]. *)
Definition _tick (s : GameState) : GameState :=
  if negb (timer_running s) then s
  else
    let s := set_remaining_seconds (remaining_seconds s - 1) s in
    if remaining_seconds s <=? 0 then set_timer_running false s else s.

(** [HostWindow.start_timer]; [seconds] is the value of the spin box. *)
Definition start_timer (seconds : Z) (s : GameState) : GameState :=
  if timer_running s then s
  else
    let s := set_remaining_seconds (Z.max 0 seconds) s in
    let s := set_timer_running true s in
    _tick s.

(** [HostWindow.reset_timer]. *)
Definition reset_timer (seconds : Z) (s : GameState) : GameState :=
  set_remaining_seconds (Z.max 0 seconds) (stop_timer s).

(** What the host can do, and the states the program can be in.  [main]
    builds [GameState()] and [HostWindow.__init__] sends the six empty
    entries to the display. *)
Inductive action : Type :=
| SendToDisplay (entries : list string)
| ClearEntries
| UnmarkAll
| MarkCorrect (idx : Z)
| StartTimer (seconds : Z)
| StopTimer
| ResetTimer (seconds : Z)
| Tick.

Definition perform (s : GameState) (a : action) : GameState :=
  match a with
  | SendToDisplay entries => send_to_display entries s
  | ClearEntries => clear_entries s
  | UnmarkAll => unmark_all s
  | MarkCorrect idx => mark_correct idx s
  | StartTimer seconds => start_timer seconds s
  | StopTimer => stop_timer s
  | ResetTimer seconds => reset_timer seconds s
  | Tick => _tick s
  end.

Definition run_from (s : GameState) (acts : list action) : GameState :=
  fold_left perform acts s.

Definition start : GameState := send_to_display (replicate 6 ""%string) default.

Definition run (acts : list action) : GameState := run_from start acts.

(** The cursor that [send_to_display] computes from the flags. *)
Definition cursor_of (s : GameState) : Z :=
  let cur := current_index s in if cur >=? 0 then cur else 5.

(** The flags of a round solved in order: [k] solved prompts followed by the
    unsolved ones, the cursor on the first unsolved prompt, or on the last
    prompt once all six are solved. *)
Definition in_order (s : GameState) : Prop :=
  exists k : nat,
    (k <= 6)%nat /\
    correct s = replicate k true ++ replicate (6 - k) false /\
    reveal_upto s = Z.min (Z.of_nat k) 5.

(** The states after each action of a list, the first one included. *)
Fixpoint trace (s : GameState) (acts : list action) : list GameState :=
  match acts with
  | [] => [s]
  | a :: rest => s :: trace (perform s a) rest
  end.

End Pyramid.

(** * Properties *)

(** ** Chain Reaction: lemmas *)

Module ChainFacts.
Import Py Chain.

Lemma norm_index_lt n i k : norm_index n i = Some k -> (k < n)%nat.
Proof.
  unfold norm_index.
  destruct ((0 <=? i) && (i <? Z.of_nat n)) eqn:E1.
  - intros [= <-]. apply andb_true_iff in E1 as [H1 H2]. lia.
  - destruct ((- Z.of_nat n <=? i) && (i <? 0)) eqn:E2; [|discriminate].
    intros [= <-]. apply andb_true_iff in E2 as [H1 H2]. lia.
Qed.

Lemma norm_index_nonneg n i :
  0 <= i < Z.of_nat n -> norm_index n i = Some (Z.to_nat i).
Proof.
  intros H. unfold norm_index.
  destruct ((0 <=? i) && (i <? Z.of_nat n)) eqn:E1; [done|].
  apply andb_false_iff in E1 as [E|E]; lia.
Qed.

Lemma getitem_norm {St A} (l : list A) i k x (s : St) :
  norm_index (length l) i = Some k -> l !! k = Some x ->
  getitem l i s = Ret x s.
Proof. intros Hn Hl. unfold getitem. by rewrite Hn, Hl. Qed.

Lemma getitem_inv {St A} (l : list A) i (s : St) :
  (exists k x, norm_index (length l) i = Some k /\ l !! k = Some x /\
               getitem l i s = Ret x s) \/
  (norm_index (length l) i = None /\ getitem l i s = Raise IndexError s).
Proof.
  unfold getitem. destruct (norm_index (length l) i) as [k|] eqn:Hn.
  - left. destruct (lookup_lt_is_Some_2 l k (norm_index_lt _ _ _ Hn)) as [x Hx].
    exists k, x. by rewrite Hx.
  - by right.
Qed.

Lemma all_true_iff flags : all flags = true <-> flags = replicate (length flags) true.
Proof.
  unfold all. induction flags as [|[] fs IH]; simpl; [done| |done].
  rewrite IH. split; [by intros <-|by intros [= <-]].
Qed.

Lemma all_replicate_true n : all (replicate n true) = true.
Proof. apply all_true_iff. by rewrite length_replicate. Qed.

Lemma hidden_count_all flags : hidden_count flags = 0%nat <-> all flags = true.
Proof.
  unfold hidden_count, all.
  induction flags as [|[] fs IH]; simpl; [done| |done].
  rewrite filter_cons_False by done. exact IH.
Qed.

Lemma hidden_positions_shift (h : nat -> bool -> nat * bool) (g : nat -> nat) flags :
  (forall i f, h i f = (g i, f)) ->
  fst <$> filter (fun p : nat * bool => p.2 = false) (imap h flags)
  = g <$> hidden_positions flags.
Proof.
  unfold hidden_positions, enumerate. revert h g.
  induction flags as [|f fs IH]; intros h g Hh; [done|].
  cbn [imap]. rewrite Hh.
  destruct f.
  - rewrite !filter_cons_False by (simpl; done).
    rewrite (IH (h ∘ S) (g ∘ S)) by (intros; apply Hh).
    rewrite (IH (pair ∘ S) S) by done.
    apply list_fmap_compose.
  - rewrite !filter_cons_True by done. cbn [fmap list_fmap fst]. f_equal.
    rewrite (IH (h ∘ S) (g ∘ S)) by (intros; apply Hh).
    rewrite (IH (pair ∘ S) S) by done.
    apply list_fmap_compose.
Qed.

Lemma hidden_positions_cons f fs :
  hidden_positions (f :: fs) =
  (if f then [] else [0%nat]) ++ (S <$> hidden_positions fs).
Proof.
  unfold hidden_positions at 1. unfold enumerate. cbn [imap].
  destruct f.
  - rewrite filter_cons_False by (simpl; done).
    by apply hidden_positions_shift.
  - rewrite filter_cons_True by done. cbn [fmap list_fmap fst app]. f_equal.
    by apply hidden_positions_shift.
Qed.

Lemma hidden_positions_length flags :
  length (hidden_positions flags) = hidden_count flags.
Proof.
  induction flags as [|f fs IH]; [done|].
  rewrite hidden_positions_cons. unfold hidden_count in *.
  destruct f.
  - rewrite filter_cons_False by done. cbn [app].
    by rewrite length_fmap.
  - rewrite filter_cons_True by done. cbn [app length].
    by rewrite length_fmap, IH.
Qed.

Lemma hidden_positions_head flags i rest :
  hidden_positions flags = i :: rest -> flags !! i = Some false.
Proof.
  revert i rest. induction flags as [|f fs IH]; intros i rest; [done|].
  rewrite hidden_positions_cons. destruct f; cbn [app].
  - destruct (hidden_positions fs) as [|j r] eqn:E; [done|].
    intros [= <- <-]. by eapply IH.
  - by intros [= <- _].
Qed.

Lemma hidden_count_reveal flags i :
  flags !! i = Some false ->
  S (hidden_count (<[i := true]> flags)) = hidden_count flags.
Proof.
  unfold hidden_count. revert i.
  induction flags as [|f fs IH]; intros i H; [done|].
  destruct i as [|i].
  - injection H as ->.
    change (<[0%nat := true]> (false :: fs)) with (true :: fs).
    rewrite filter_cons_False by done.
    by rewrite filter_cons_True by done.
  - change (<[S i := true]> (f :: fs)) with (f :: <[i := true]> fs).
    change (fs !! i = Some false) in H.
    destruct f.
    + rewrite !filter_cons_False by done. by apply IH.
    + rewrite !filter_cons_True by done. cbn [length]. f_equal. by apply IH.
Qed.

Section Consistent.

Variable s : GameState.
Hypothesis Hc : consistent s.

(** What [reveal_next_letter] does, case by case. *)
Lemma reveal_next_letter_cases idx :
  (in_ends (length (words s)) idx = true /\
   reveal_next_letter idx s = Ret (false, false) s) \/
  (norm_index (length (words s)) idx = None /\
   reveal_next_letter idx s = Raise IndexError s) \/
  (exists k flags,
     in_ends (length (words s)) idx = false /\
     norm_index (length (words s)) idx = Some k /\
     revealed s !! k = Some flags /\
     ((hidden_count flags = 0%nat /\
       reveal_next_letter idx s = Ret (false, false) s) \/
      (hidden_count flags = 1%nat /\
       reveal_next_letter idx s =
         Ret (false, true)
             (set_withheld_last (<[k := true]> (withheld_last s)) s)) \/
      (exists next_i,
         (2 <= hidden_count flags)%nat /\ flags !! next_i = Some false /\
         reveal_next_letter idx s =
           Ret (true, false)
               (set_revealed (<[k := <[next_i := true]> flags]> (revealed s)) s)))).
Proof.
  destruct Hc as (H3 & Hr & Hw).
  unfold reveal_next_letter, bind, get.
  destruct (in_ends (length (words s)) idx) eqn:He; [by left|].
  right.
  destruct (getitem_inv (revealed s) idx s) as [(k & flags & Hn & Hl & ->)|[Hn ->]].
  2:{ left. by rewrite <- Hr. }
  right. exists k, flags. rewrite <- Hr. do 3 (split; [done|]).
  pose proof (hidden_positions_length flags) as Hlen.
  destruct (hidden_positions flags) as [|i [|j rest]] eqn:Hh.
  - left. by split.
  - right. left. split; [done|].
    unfold assign_withheld_last, bind, get, setitem.
    by rewrite Hw, <- Hr, Hn.
  - right. right. exists i. split; [simpl in Hlen; lia|].
    split; [by eapply hidden_positions_head|].
    unfold assign_revealed, bind, get, setitem. by rewrite Hn.
Qed.

(** What [try_guess] does, case by case. *)
Lemma try_guess_cases idx guess :
  (norm_index (length (words s)) idx = None /\
   try_guess idx guess s = Raise IndexError s) \/
  (exists k target,
     norm_index (length (words s)) idx = Some k /\
     words s !! k = Some target /\
     ((upper (strip guess) = target /\
       try_guess idx guess s =
         Ret true (mkGameState (words s)
                     (<[k := replicate (String.length target) true]> (revealed s))
                     (<[k := false]> (withheld_last s)))) \/
      (upper (strip guess) <> target /\
       try_guess idx guess s = Ret false s))).
Proof.
  destruct Hc as (H3 & Hr & Hw).
  unfold try_guess, bind, get.
  destruct (getitem_inv (words s) idx s) as [(k & target & Hn & Hl & ->)|[Hn ->]].
  2:{ by left. }
  right. exists k, target. do 2 (split; [done|]).
  destruct (String.eqb (upper (strip guess)) target) eqn:E.
  - left. apply String.eqb_eq in E. split; [done|].
    unfold assign_revealed, assign_withheld_last, bind, get, put, setitem.
    rewrite Hr, Hn. cbn. by rewrite Hw, Hn.
  - right. apply String.eqb_neq in E. by split.
Qed.

(** Reading the completeness of words. *)
Lemma is_word_complete_at (i : nat) flags :
  revealed s !! i = Some flags ->
  is_word_complete (Z.of_nat i) s = Ret (all flags) s.
Proof.
  intros Hf. apply lookup_lt_Some in Hf as Hi.
  unfold is_word_complete, bind, get.
  rewrite (getitem_norm (revealed s) _ i flags); [done| |done].
  rewrite norm_index_nonneg by lia. by rewrite Nat2Z.id.
Qed.

Lemma all_complete_spec idxs :
  (forall i, i ∈ idxs -> (i < length (words s))%nat) ->
  exists b,
    all_complete idxs s = Ret b s /\
    (b = true <->
     forall i, i ∈ idxs -> is_word_complete (Z.of_nat i) s = Ret true s).
Proof.
  destruct Hc as (_ & Hr & _).
  induction idxs as [|i idxs IH]; intros Hin.
  - exists true. split; [done|]. split; [|done]. intros _ i Hi.
    by apply elem_of_nil in Hi.
  - assert (Hi : (i < length (revealed s))%nat).
    { rewrite Hr. apply Hin. by left. }
    destruct (lookup_lt_is_Some_2 _ _ Hi) as [flags Hf].
    pose proof (is_word_complete_at i flags Hf) as Hwc.
    cbn [all_complete]. unfold bind at 1. rewrite Hwc.
    destruct (all flags) eqn:Ea; cbn [negb].
    + destruct IH as (b & Hb & Hiff).
      { intros j Hj. apply Hin. by right. }
      exists b. split; [done|]. rewrite Hiff. split.
      * intros H j Hj. apply elem_of_cons in Hj as [->|Hj]; [done|by apply H].
      * intros H j Hj. apply H. by right.
    + exists false. split; [done|]. split; [done|].
      intros H. specialize (H i). rewrite Hwc in H.
      assert (Ret (St := GameState) false s = Ret true s) as [=].
      apply H. by left.
Qed.

End Consistent.

Lemma hidden_count_replicate_true n : hidden_count (replicate n true) = 0%nat.
Proof. apply hidden_count_all, all_replicate_true. Qed.

Lemma init_words ws s :
  __init__ ws = inr s -> words s = map (fun w => upper (strip w)) ws.
Proof.
  unfold __init__. destruct (length ws <? 3)%nat; [done|]. by intros [= <-].
Qed.

(** The constructor raises on fewer than three words and on nothing else. *)
Lemma init_succeeds ws :
  (3 <= length ws)%nat -> exists s, __init__ ws = inr s.
Proof.
  intros H3. unfold __init__.
  destruct (Nat.ltb_spec (length ws) 3); [lia|]. by eexists.
Qed.

Lemma init_too_short ws :
  (length ws < 3)%nat -> __init__ ws = inl ValueError.
Proof.
  intros H3. unfold __init__. by destruct (Nat.ltb_spec (length ws) 3); [|lia].
Qed.

(** A freshly built state has the invariant. *)
Lemma init_Inv ws s : __init__ ws = inr s -> Inv s.
Proof.
  unfold __init__. destruct (length ws <? 3)%nat eqn:E3; [done|].
  apply Nat.ltb_ge in E3. intros [= <-].
  set (ww := map (fun w => upper (strip w)) ws).
  assert (Hlen : length ww = length ws) by apply length_map.
  split; [|split; [|split]].
  - repeat split; cbn [words revealed withheld_last];
      [lia | apply length_imap | apply length_replicate].
  - intros k w flags Hw Hf. cbn [words revealed] in Hw, Hf.
    rewrite list_lookup_imap, Hw in Hf.
    cbn in Hf. injection Hf as <-.
    destruct (in_ends _ _); apply length_replicate.
  - intros k Hk. unfold end_position in Hk. cbn [words] in Hk.
    cbn [words revealed withheld_last].
    assert (Hlt : (k < length ww)%nat) by lia.
    destruct (lookup_lt_is_Some_2 ww k Hlt) as [w Hw].
    split.
    + exists w. split; [done|]. rewrite list_lookup_imap, Hw. cbn.
      replace (in_ends (length ww) (Z.of_nat k)) with true; [done|].
      symmetry. unfold in_ends. apply orb_true_iff. lia.
    + by apply lookup_replicate_2.
  - intros k flags Hw _. cbn [withheld_last] in Hw.
    by apply lookup_replicate_1 in Hw as [? _].
Qed.

Lemma end_position_hidden s k flags :
  endpoints_open s -> end_position s k -> revealed s !! k = Some flags ->
  hidden_count flags = 0%nat.
Proof.
  intros He Hk Hf. destruct (He k Hk) as [(w & _ & Hr) _].
  rewrite Hr in Hf. injection Hf as <-. apply hidden_count_replicate_true.
Qed.

(** The three updates the operations make keep the invariant. *)
Lemma Inv_withhold s k flags :
  Inv s -> revealed s !! k = Some flags -> hidden_count flags = 1%nat ->
  Inv (set_withheld_last (<[k := true]> (withheld_last s)) s).
Proof.
  intros (Hc & Hfit & Hends & Hwh) Hf H1.
  assert (Hnot : ~ end_position s k).
  { intros Hend. rewrite (end_position_hidden s k flags) in H1; done. }
  split; [|split; [|split]].
  - destruct Hc as (H3 & Hr & Hw).
    repeat split; cbn [words revealed withheld_last set_withheld_last];
      [done..|by rewrite length_insert].
  - exact Hfit.
  - intros k' Hk'. destruct (Hends k' Hk') as [Hx Hy]. split; [exact Hx|].
    cbn [withheld_last set_withheld_last].
    rewrite list_lookup_insert_ne; [done|]. by intros ->.
  - intros k' flags' Hk' Hf'. cbn [withheld_last revealed set_withheld_last] in *.
    destruct (decide (k = k')) as [<-|Hne].
    + rewrite Hf in Hf'. by injection Hf' as <-.
    + rewrite list_lookup_insert_ne in Hk' by done. by eapply Hwh.
Qed.

Lemma Inv_reveal s k flags next_i :
  Inv s -> revealed s !! k = Some flags -> (2 <= hidden_count flags)%nat ->
  Inv (set_revealed (<[k := <[next_i := true]> flags]> (revealed s)) s).
Proof.
  intros (Hc & Hfit & Hends & Hwh) Hf H2.
  assert (Hnot : ~ end_position s k).
  { intros Hend. rewrite (end_position_hidden s k flags) in H2; [lia|done..]. }
  apply lookup_lt_Some in Hf as Hk.
  split; [|split; [|split]].
  - destruct Hc as (H3 & Hr & Hw).
    repeat split; cbn [words revealed withheld_last set_revealed];
      [done|by rewrite length_insert|done].
  - intros k' w flags' Hw' Hf'. cbn [words revealed set_revealed] in *.
    destruct (decide (k = k')) as [<-|Hne].
    + rewrite list_lookup_insert_eq in Hf' by done. injection Hf' as <-.
      rewrite length_insert. by eapply Hfit.
    + rewrite list_lookup_insert_ne in Hf' by done. by eapply Hfit.
  - intros k' Hk'. destruct (Hends k' Hk') as [(w & Hx1 & Hx2) Hy].
    split; [|exact Hy]. exists w. split; [exact Hx1|].
    cbn [revealed set_revealed].
    rewrite list_lookup_insert_ne; [done|]. by intros ->.
  - intros k' flags' Hk' Hf'. cbn [withheld_last revealed set_revealed] in *.
    destruct (decide (k = k')) as [<-|Hne].
    + specialize (Hwh k flags Hk' Hf). lia.
    + rewrite list_lookup_insert_ne in Hf' by done. by eapply Hwh.
Qed.

Lemma Inv_guess s k target :
  Inv s -> words s !! k = Some target ->
  Inv (mkGameState (words s)
         (<[k := replicate (String.length target) true]> (revealed s))
         (<[k := false]> (withheld_last s))).
Proof.
  intros (Hc & Hfit & Hends & Hwh) Ht.
  apply lookup_lt_Some in Ht as Hk.
  pose proof Hc as (H3 & Hr & Hw).
  split; [|split; [|split]].
  - repeat split; cbn [words revealed withheld_last];
      [done|by rewrite length_insert..].
  - intros k' w flags' Hw' Hf'. cbn [words revealed] in *.
    destruct (decide (k = k')) as [<-|Hne].
    + rewrite list_lookup_insert_eq in Hf' by lia. injection Hf' as <-.
      rewrite Ht in Hw'. injection Hw' as <-. apply length_replicate.
    + rewrite list_lookup_insert_ne in Hf' by done. by eapply Hfit.
  - intros k' Hk'. cbn [words revealed withheld_last].
    destruct (decide (k = k')) as [<-|Hne].
    + split; [|apply list_lookup_insert_eq; lia].
      exists target. split; [done|]. apply list_lookup_insert_eq. lia.
    + destruct (Hends k' Hk') as [(w & Hx1 & Hx2) Hy].
      rewrite !list_lookup_insert_ne by done. split; [|exact Hy]. by exists w.
  - intros k' flags' Hk' Hf'. cbn [withheld_last revealed] in *.
    destruct (decide (k = k')) as [<-|Hne].
    + rewrite list_lookup_insert_eq in Hk' by lia. done.
    + rewrite list_lookup_insert_ne in Hk' by done.
      rewrite list_lookup_insert_ne in Hf' by done. by eapply Hwh.
Qed.

(** Each operation keeps the invariant and the words. *)
Lemma step_Inv s o : Inv s -> Inv (step s o) /\ words (step s o) = words s.
Proof.
  intros HI. pose proof HI as (Hc & _).
  assert (Hsame : Inv s /\ words s = words s) by done.
  destruct o as [idx|idx guess]; unfold step.
  - destruct (reveal_next_letter_cases s Hc idx)
      as [[_ ->]|[[_ ->]|(k & flags & He & Hn & Hf & Hcase)]];
      [exact Hsame..|].
    destruct Hcase as [[_ ->]|[[H1 ->]|(next_i & H2 & Hnext & ->)]];
      [exact Hsame| |]; cbn [state_of]; (split; [|done]).
    + by eapply Inv_withhold.
    + by eapply Inv_reveal.
  - destruct (try_guess_cases s Hc idx guess)
      as [[_ ->]|(k & target & Hn & Ht & [[_ ->]|[_ ->]])];
      [exact Hsame| |exact Hsame].
    cbn [state_of]. split; [|done]. by apply Inv_guess.
Qed.

Lemma run_Inv ops : forall s, Inv s -> Inv (run s ops) /\ words (run s ops) = words s.
Proof.
  induction ops as [|o ops IH]; intros s HI; [done|].
  cbn [run fold_left]. destruct (step_Inv s o HI) as [HI' Hw'].
  destruct (IH _ HI') as [HI'' Hw'']. split; [done|].
  unfold run in Hw''. congruence.
Qed.

(** Text: trimming twice is trimming once, and uppercasing keeps a string
    non-empty. *)
Lemma lstrip_rstrip_comm s : rstrip (lstrip s) = lstrip (rstrip s).
Proof.
  induction s as [|c s IH]; [done|].
  cbn [lstrip rstrip]. destruct (isspace c) eqn:Ec.
  - rewrite IH. destruct (rstrip s) as [|c' r]; [done|].
    cbn [lstrip]. by rewrite Ec.
  - cbn [rstrip]. rewrite Ec.
    destruct (rstrip s) as [|c' r]; cbn [lstrip]; by rewrite Ec.
Qed.

Lemma lstrip_idem s : lstrip (lstrip s) = lstrip s.
Proof.
  induction s as [|c s IH]; [done|].
  cbn [lstrip]. destruct (isspace c) eqn:Ec; [done|].
  cbn [lstrip]. by rewrite Ec.
Qed.

Lemma rstrip_idem s : rstrip (rstrip s) = rstrip s.
Proof.
  induction s as [|c s IH]; [done|].
  cbn [rstrip]. destruct (rstrip s) as [|c' r] eqn:Er.
  - destruct (isspace c) eqn:Ec; [done|]. cbn [rstrip]. by rewrite Ec.
  - cbn [rstrip] in *. by rewrite IH.
Qed.

Lemma strip_idem s : strip (strip s) = strip s.
Proof.
  unfold strip. rewrite (lstrip_rstrip_comm (rstrip s)).
  by rewrite rstrip_idem, lstrip_idem.
Qed.

Lemma upper_empty s : upper s = EmptyString -> s = EmptyString.
Proof. by destruct s. Qed.

Lemma elem_of_interior n i : i ∈ interior n <-> (0 < i < n - 1)%nat.
Proof. unfold interior. rewrite elem_of_seq. lia. Qed.

(** The flags of an interior word of a freshly built state. *)
Lemma init_interior_flags ws s (i : nat) w :
  __init__ ws = inr s -> (0 < i < length (words s) - 1)%nat ->
  words s !! i = Some w ->
  revealed s !! i = Some (replicate (String.length w) false).
Proof.
  unfold __init__. destruct (length ws <? 3)%nat; [done|]. intros [= <-].
  cbn [words revealed]. intros Hi Hw.
  rewrite list_lookup_imap, Hw. cbn.
  replace (in_ends _ _) with false; [done|].
  symmetry. unfold in_ends. apply orb_false_iff. lia.
Qed.

Lemma all_replicate_false n : n <> 0%nat -> all (replicate n false) = false.
Proof. by destruct n. Qed.

Lemma string_length_zero w : String.length w = 0%nat -> w = EmptyString.
Proof. by destruct w. Qed.

End ChainFacts.

(** ** Chain Reaction: the specification *)
Module ChainSpec.
Import Py Chain ChainFacts.

Lemma init_sample : __init__ SAMPLE_CHAIN = inr sample_game.
Proof. reflexivity. Qed.

Lemma reachable_Inv ws s0 ops :
  __init__ ws = inr s0 ->
  Inv (run s0 ops) /\ words (run s0 ops) = map (fun w => upper (strip w)) ws.
Proof.
  intros Hi. destruct (run_Inv ops s0 (init_Inv _ _ Hi)) as [HI Hw].
  split; [done|]. rewrite Hw. by apply init_words.
Qed.

Lemma interior_not_end s (i : nat) :
  (0 < i < length (words s) - 1)%nat ->
  in_ends (length (words s)) (Z.of_nat i) = false /\
  norm_index (length (words s)) (Z.of_nat i) = Some i.
Proof.
  intros Hi. split.
  - unfold in_ends. apply orb_false_iff. lia.
  - rewrite norm_index_nonneg by lia. by rewrite Nat2Z.id.
Qed.

(** C1: on an interior word with exactly one hidden letter,
    [reveal_next_letter] changes no reveal flag, sets the word's withheld flag
    and returns [(False, True)]. *)
Theorem reveal_next_letter_withholds_last ws s0 ops (i : nat) flags :
  __init__ ws = inr s0 ->
  let s := run s0 ops in
  (0 < i < length (words s) - 1)%nat ->
  revealed s !! i = Some flags ->
  hidden_count flags = 1%nat ->
  exists s',
    reveal_next_letter (Z.of_nat i) s = Ret (false, true) s' /\
    words s' = words s /\
    revealed s' = revealed s /\
    withheld_last s' = <[i := true]> (withheld_last s) /\
    withheld_last s' !! i = Some true.
Proof.
  intros Hinit s Hi Hf H1.
  destruct (reachable_Inv ws s0 ops Hinit) as [HI _]. fold s in HI.
  pose proof HI as (Hc & _). pose proof Hc as (_ & _ & Hw).
  destruct (interior_not_end s i Hi) as [He Hn].
  destruct (reveal_next_letter_cases s Hc (Z.of_nat i))
    as [[He' _]|[[Hn' _]|(k & flags' & _ & Hn' & Hf' & Hcase)]];
    [congruence..|].
  assert (k = i) as -> by congruence.
  assert (flags' = flags) as -> by congruence.
  destruct Hcase as [[H0 _]|[[_ Hr]|(next_i & H2 & _)]]; [lia| |lia].
  eexists. split; [exact Hr|].
  cbn [words revealed withheld_last set_withheld_last].
  do 3 (split; [done|]). apply list_lookup_insert_eq. lia.
Qed.

Lemma reveal_next_letter_withholds_last_witness :
  exists s',
    reveal_next_letter 1 (run sample_game (replicate 4 (RevealNextLetter 1)))
      = Ret (false, true) s' /\
    withheld_last s' !! 1%nat = Some true.
Proof.
  destruct (reveal_next_letter_withholds_last SAMPLE_CHAIN sample_game
              (replicate 4 (RevealNextLetter 1)) 1 [true; true; true; true; false])
    as (s' & H1 & _ & _ & _ & H2);
    [reflexivity | vm_compute; lia | reflexivity | reflexivity |].
  exists s'. split; [exact H1 | exact H2].
Defined.

(** C5: in every state reached from a loaded chain, the first and the last
    word have all their reveal flags true and are not withheld, and their
    masks are the stored words, which are the trimmed, uppercased inputs. *)
Theorem endpoints_stay_revealed ws s0 ops (i : nat) :
  __init__ ws = inr s0 ->
  let s := run s0 ops in
  i = 0%nat \/ i = (length (words s) - 1)%nat ->
  (3 <= length (words s))%nat /\
  words s = map (fun w => upper (strip w)) ws /\
  exists w flags,
    words s !! i = Some w /\
    revealed s !! i = Some flags /\
    length flags = String.length w /\
    all flags = true /\
    withheld_last s !! i = Some false /\
    word_mask (Z.of_nat i) s = Ret w s.
Proof.
  intros Hinit s Hi.
  destruct (reachable_Inv ws s0 ops Hinit) as [HI Hws]. fold s in HI, Hws.
  destruct HI as (Hc & Hfit & Hends & _). pose proof Hc as (H3 & Hr & Hw).
  split; [done|]. split; [done|].
  destruct (Hends i Hi) as [(w & Hw1 & Hw2) Hw3].
  exists w, (replicate (String.length w) true).
  do 2 (split; [done|]). split; [apply length_replicate|].
  split; [apply all_replicate_true|]. split; [done|].
  assert (Hn : norm_index (length (words s)) (Z.of_nat i) = Some i).
  { rewrite norm_index_nonneg by lia. by rewrite Nat2Z.id. }
  unfold word_mask, bind, get.
  rewrite (getitem_norm (words s) _ i w) by done.
  rewrite (getitem_norm (revealed s) _ i (replicate (String.length w) true))
    by (try rewrite Hr; done).
  replace (in_ends (length (words s)) (Z.of_nat i)) with true; [done|].
  symmetry. unfold in_ends. apply orb_true_iff. lia.
Qed.

Lemma endpoints_stay_revealed_witness :
  let s := run sample_game
             [RevealNextLetter 6; TryGuess 0 "solar"; RevealNextLetter (-1);
              TryGuess 6 "card"; RevealNextLetter 0] in
  word_mask 6 s = Ret "CARD"%string s.
Proof.
  destruct (endpoints_stay_revealed SAMPLE_CHAIN sample_game
              [RevealNextLetter 6; TryGuess 0 "solar"; RevealNextLetter (-1);
               TryGuess 6 "card"; RevealNextLetter 0] 6)
    as (_ & _ & w & flags & Hw & _ & _ & _ & _ & Hm);
    [reflexivity | right; reflexivity |].
  vm_compute in Hw. injection Hw as <-. exact Hm.
Defined.

(** C7: in every state reached from a loaded chain, an interior word whose
    withheld flag is set has exactly one reveal flag that is false. *)
Theorem withheld_has_one_hidden ws s0 ops (i : nat) flags :
  __init__ ws = inr s0 ->
  let s := run s0 ops in
  (0 < i < length (words s) - 1)%nat ->
  withheld_last s !! i = Some true ->
  revealed s !! i = Some flags ->
  hidden_count flags = 1%nat.
Proof.
  intros Hinit s _ Hw Hf.
  destruct (reachable_Inv ws s0 ops Hinit) as [(_ & _ & _ & Hwh) _].
  by apply (Hwh i flags).
Qed.

Lemma withheld_has_one_hidden_witness :
  hidden_count [true; true; true; true; false] = 1%nat.
Proof.
  apply (withheld_has_one_hidden SAMPLE_CHAIN sample_game
           (replicate 5 (RevealNextLetter 1)) 1);
    [reflexivity | vm_compute; lia | reflexivity | reflexivity].
Defined.

(** C6: on an interior word [try_guess] returns [True] exactly when the
    trimmed, uppercased guess is the stored word; then every reveal flag of
    the word is true and its withheld flag false, nothing else having
    changed; otherwise the state is as it was. *)
Theorem try_guess_matches_or_keeps ws s0 ops (i : nat) guess :
  __init__ ws = inr s0 ->
  let s := run s0 ops in
  (0 < i < length (words s) - 1)%nat ->
  exists target b s',
    words s !! i = Some target /\
    try_guess (Z.of_nat i) guess s = Ret b s' /\
    (b = true <-> upper (strip guess) = target) /\
    (b = true ->
       s' = mkGameState (words s)
              (<[i := replicate (String.length target) true]> (revealed s))
              (<[i := false]> (withheld_last s)) /\
       revealed s' !! i = Some (replicate (String.length target) true) /\
       withheld_last s' !! i = Some false) /\
    (b = false -> s' = s).
Proof.
  intros Hinit s Hi.
  destruct (reachable_Inv ws s0 ops Hinit) as [HI _]. fold s in HI.
  pose proof HI as (Hc & _). pose proof Hc as (_ & Hr & Hw).
  destruct (interior_not_end s i Hi) as [_ Hn].
  destruct (try_guess_cases s Hc (Z.of_nat i) guess)
    as [[Hn' _]|(k & target & Hn' & Ht & Hcase)]; [congruence|].
  assert (k = i) as -> by congruence.
  exists target.
  destruct Hcase as [[Heq Hg]|[Hne Hg]].
  - exists true. eexists. do 2 (split; [done|]). split; [done|].
    split; [|done]. intros _. split; [done|].
    cbn [revealed withheld_last].
    split; apply list_lookup_insert_eq; lia.
  - exists false, s. do 2 (split; [done|]). split; [|done].
    split; [done|]. intros Heq. by destruct Hne.
Qed.

Lemma try_guess_matches_or_keeps_witness :
  exists target b s',
    words (run sample_game (replicate 5 (RevealNextLetter 1))) !! 1%nat
      = Some target /\
    try_guess 1 " power " (run sample_game (replicate 5 (RevealNextLetter 1)))
      = Ret b s' /\
    (b = true <-> upper (strip " power ") = target).
Proof.
  destruct (try_guess_matches_or_keeps SAMPLE_CHAIN sample_game
              (replicate 5 (RevealNextLetter 1)) 1 " power ")
    as (target & b & s' & H1 & H2 & H3 & _);
    [reflexivity | vm_compute; lia |].
  exists target, b, s'. split; [exact H1|]. split; [exact H2 | exact H3].
Defined.

(** C10: at the first or the last word [try_guess] leaves the state as it
    is, whether the guess matches or not, and still returns [True] when the
    trimmed, uppercased guess is that word. *)
Theorem try_guess_endpoint_keeps_state ws s0 ops (i : nat) guess :
  __init__ ws = inr s0 ->
  let s := run s0 ops in
  i = 0%nat \/ i = (length (words s) - 1)%nat ->
  exists w,
    words s !! i = Some w /\
    try_guess (Z.of_nat i) guess s
      = Ret (String.eqb (upper (strip guess)) w) s /\
    (upper (strip guess) = w -> try_guess (Z.of_nat i) guess s = Ret true s).
Proof.
  intros Hinit s Hi.
  destruct (reachable_Inv ws s0 ops Hinit) as [HI _]. fold s in HI.
  pose proof HI as (Hc & _ & Hends & _). pose proof Hc as (H3 & Hr & Hw).
  destruct (Hends i Hi) as [(w & Hw1 & Hw2) Hw3].
  assert (Hn : norm_index (length (words s)) (Z.of_nat i) = Some i).
  { rewrite norm_index_nonneg by (unfold end_position in Hi; lia).
    by rewrite Nat2Z.id. }
  exists w. split; [done|].
  assert (Hsame : mkGameState (words s)
             (<[i := replicate (String.length w) true]> (revealed s))
             (<[i := false]> (withheld_last s)) = s).
  { rewrite !list_insert_id by done. by destruct s. }
  destruct (try_guess_cases s Hc (Z.of_nat i) guess)
    as [[Hn' _]|(k & target & Hn' & Ht & Hcase)]; [congruence|].
  assert (k = i) as -> by congruence.
  assert (target = w) as -> by congruence.
  destruct Hcase as [[Heq Hg]|[Hne Hg]].
  - rewrite Hg, Hsame. apply String.eqb_eq in Heq as Heq'. rewrite Heq'.
    by split.
  - rewrite Hg. apply String.eqb_neq in Hne as Hne'. rewrite Hne'.
    split; [done|]. intros Heq. by destruct Hne.
Qed.

Lemma try_guess_endpoint_keeps_state_witness :
  try_guess 0 "Solar" sample_game = Ret true sample_game.
Proof.
  destruct (try_guess_endpoint_keeps_state SAMPLE_CHAIN sample_game [] 0 "Solar")
    as (w & Hw & _ & Ht); [reflexivity | left; reflexivity |].
  vm_compute in Hw. injection Hw as <-. apply Ht. reflexivity.
Defined.

(** C9: the sample chain. The mask of POWER is empty at first, is P after
    one [reveal_next_letter(1)], and after four more calls, the last of which
    returns [(False, True)], it is POWE followed by the withheld mark. *)
Theorem sample_chain_scenario :
  __init__ SAMPLE_CHAIN = inr sample_game /\
  word_mask 1 sample_game = Ret ""%string sample_game /\
  (let s1 := run sample_game [RevealNextLetter 1] in
   reveal_next_letter 1 sample_game = Ret (true, false) s1 /\
   word_mask 1 s1 = Ret "P"%string s1) /\
  (let s4 := run sample_game (replicate 4 (RevealNextLetter 1)) in
   let s5 := run sample_game (replicate 5 (RevealNextLetter 1)) in
   reveal_next_letter 1 s4 = Ret (false, true) s5 /\
   word_mask 1 s5 = Ret "POWE ?"%string s5).
Proof. repeat split. Qed.

(** C8, as the claim has it, fails: a chain built from a blank interior
    word is solved as soon as it is loaded. *)
Lemma fresh_blank_interior_is_solved :
  let s := mkGameState ["A"; ""; "B"]%string [[true]; []; [true]]
             [false; false; false] in
  __init__ ["A"; " "; "B"]%string = inr s /\
  interior (length (words s)) = [1%nat] /\
  _is_puzzle_solved (Some s) = Ret true (Some s) /\
  _is_puzzle_solved (Some s) <> Ret false (Some s).
Proof. repeat split. discriminate. Qed.

Lemma puzzle_solved_reads s :
  consistent s ->
  exists b,
    _is_puzzle_solved (Some s) = Ret b (Some s) /\
    (b = true <->
     forall i : nat, (0 < i < length (words s) - 1)%nat ->
                     is_word_complete (Z.of_nat i) s = Ret true s).
Proof.
  intros Hc.
  destruct (all_complete_spec s Hc (interior (length (words s))))
    as (b & Hb & Hiff).
  { intros i Hi. apply elem_of_interior in Hi. lia. }
  exists b. unfold _is_puzzle_solved. rewrite Hb. split; [done|].
  rewrite Hiff. split.
  - intros H i Hi. apply H. by apply elem_of_interior.
  - intros H i Hi. apply H. by apply elem_of_interior.
Qed.

Lemma fresh_unsolved ws s0 (i : nat) w :
  __init__ ws = inr s0 ->
  (0 < i < length (words s0) - 1)%nat ->
  words s0 !! i = Some w -> w <> EmptyString ->
  _is_puzzle_solved (Some s0) = Ret false (Some s0).
Proof.
  intros Hinit Hi Hw Hne.
  pose proof (init_Inv _ _ Hinit) as (Hc & _).
  destruct (puzzle_solved_reads s0 Hc) as (b & Hb & Hiff).
  destruct b; [|done]. exfalso.
  destruct Hiff as [Hall _]. specialize (Hall eq_refl i Hi).
  pose proof (init_interior_flags ws s0 i w Hinit Hi Hw) as Hf.
  rewrite (is_word_complete_at s0 i _ Hf) in Hall.
  rewrite all_replicate_false in Hall; [done|].
  intros H0. by apply Hne, string_length_zero.
Qed.

(** C8, amended: the puzzle is solved exactly when every interior word is
    complete; a freshly loaded chain is unsolved as soon as one interior
    word has a letter, which holds for every chain that
    [load_chain_from_text] builds, the blank lines being dropped there. *)
Theorem puzzle_solved_iff_interior_complete :
  (forall ws s0 ops,
     __init__ ws = inr s0 ->
     let s := run s0 ops in
     exists b,
       _is_puzzle_solved (Some s) = Ret b (Some s) /\
       (b = true <->
        forall i : nat, (0 < i < length (words s) - 1)%nat ->
                        is_word_complete (Z.of_nat i) s = Ret true s)) /\
  (forall ws s0 (i : nat) w,
     __init__ ws = inr s0 ->
     (0 < i < length (words s0) - 1)%nat ->
     words s0 !! i = Some w -> w <> EmptyString ->
     _is_puzzle_solved (Some s0) = Ret false (Some s0)) /\
  (forall text s0,
     load_chain_from_text text = inr s0 ->
     _is_puzzle_solved (Some s0) = Ret false (Some s0)).
Proof.
  split; [|split].
  - intros ws s0 ops Hinit s.
    destruct (reachable_Inv ws s0 ops Hinit) as [(Hc & _) _].
    by apply puzzle_solved_reads.
  - apply fresh_unsolved.
  - intros text s0. unfold load_chain_from_text.
    set (raw := filter (fun ln => strip ln <> EmptyString) (splitlines text)).
    destruct (length (strip <$> raw) <? 3)%nat eqn:E3; [done|].
    apply Nat.ltb_ge in E3. rewrite length_fmap in E3. intros Hinit.
    destruct (lookup_lt_is_Some_2 raw 1) as [ln Hln]; [lia|].
    assert (Hnb : strip ln <> EmptyString).
    { apply list_elem_of_lookup_2 in Hln.
      by apply list_elem_of_filter in Hln as [? _]. }
    pose proof (init_words _ _ Hinit) as Hws.
    assert (Hlen : length (words s0) = length raw).
    { by rewrite Hws, length_map, length_fmap. }
    apply (fresh_unsolved _ s0 1 (upper (strip ln)) Hinit); [lia| |].
    + rewrite Hws. change (map ?f ?l) with (f <$> l).
      rewrite !list_lookup_fmap, Hln. cbn. by rewrite strip_idem.
    + intros H. by apply upper_empty in H.
Qed.

Lemma puzzle_solved_iff_interior_complete_witness :
  _is_puzzle_solved (Some sample_game) = Ret false (Some sample_game).
Proof.
  apply (proj1 (proj2 puzzle_solved_iff_interior_complete)
           SAMPLE_CHAIN sample_game 1%nat "POWER"%string);
    [reflexivity | vm_compute; lia | reflexivity | discriminate].
Defined.

End ChainSpec.

(** ** Pyramid: the specification *)

Module PyramidSpec.
Import Py Pyramid.

Lemma start_in_order : in_order start.
Proof. exists 0%nat. repeat split. lia. Qed.

Ltac each_progress k :=
  assert (k = 0 \/ k = 1 \/ k = 2 \/ k = 3 \/ k = 4 \/ k = 5 \/ k = 6)%nat
    as [->|[->|[->|[->|[->|[->| ->]]]]]] by lia.

Ltac count_solved :=
  first [ by (exists 0%nat; repeat split; lia)
        | by (exists 1%nat; repeat split; lia)
        | by (exists 2%nat; repeat split; lia)
        | by (exists 3%nat; repeat split; lia)
        | by (exists 4%nat; repeat split; lia)
        | by (exists 5%nat; repeat split; lia)
        | by (exists 6%nat; repeat split; lia) ].

Lemma send_to_display_in_order entries s :
  in_order s -> send_to_display entries s = set_prompts_field entries s.
Proof.
  intros (k & Hk & Hc & Hr). destruct s as [p c secs running r].
  cbn [correct reveal_upto] in Hc, Hr. subst c r.
  each_progress k; reflexivity.
Qed.

Lemma perform_in_order s a : in_order s -> in_order (perform s a).
Proof.
  intros HI. destruct a as [entries| | |idx|seconds| |seconds|]; cbn [perform].
  - rewrite send_to_display_in_order by done.
    destruct HI as (k & Hk & Hc & Hr). by exists k.
  - unfold clear_entries. rewrite send_to_display_in_order by done.
    destruct HI as (k & Hk & Hc & Hr). by exists k.
  - exists 0%nat. repeat split. lia.
  - destruct HI as (k & Hk & Hc & Hr). destruct s as [p c secs running r].
    cbn [correct reveal_upto] in Hc, Hr. subst c r.
    unfold mark_correct.
    each_progress k; cbn [current_index correct];
      try (match goal with
           | |- context [negb (idx =? ?c)] =>
               destruct (Z.eqb_spec idx c) as [->|_]
           end);
      cbv -[in_order]; count_solved.
  - destruct HI as (k & Hk & Hc & Hr). exists k.
    unfold start_timer, _tick.
    destruct (timer_running s); [done|]. cbn.
    by destruct (Z.max 0 seconds - 1 <=? 0).
  - destruct HI as (k & Hk & Hc & Hr). by exists k.
  - destruct HI as (k & Hk & Hc & Hr). by exists k.
  - destruct HI as (k & Hk & Hc & Hr). exists k.
    unfold _tick. destruct (timer_running s); [|done]. cbn.
    by destruct (remaining_seconds s - 1 <=? 0).
Qed.

Lemma run_in_order acts : in_order (run acts).
Proof.
  unfold run, run_from. generalize start_in_order. generalize start.
  induction acts as [|a acts IH]; intros s HI; [done|].
  cbn [fold_left]. by apply IH, perform_in_order.
Qed.

(** C2: [mark_correct(i)] with [i] other than [current_index()], or with any
    [i] once all prompts are solved, leaves the whole state as it is. *)
Theorem mark_correct_gated (s : GameState) (i : Z) :
  i <> current_index s \/ current_index s = -1 ->
  mark_correct i s = s.
Proof.
  intros H. unfold mark_correct.
  destruct (Z.eqb_spec (current_index s) (-1)) as [|Hcur]; [done|].
  destruct (Z.eqb_spec i (current_index s)) as [Heq|]; [|done].
  by destruct H.
Qed.

Lemma mark_correct_gated_witness :
  mark_correct 1 start = start /\
  mark_correct (-1) start = start /\
  mark_correct 3 (run (MarkCorrect <$> [0; 1; 2; 3; 4; 5]))
    = run (MarkCorrect <$> [0; 1; 2; 3; 4; 5]).
Proof.
  split; [|split]; apply mark_correct_gated.
  - left. vm_compute. lia.
  - left. vm_compute. lia.
  - right. reflexivity.
Defined.

(** C3, as the claim has it, fails: on a state whose cursor is ahead of the
    first unsolved prompt, [send_to_display] moves the cursor back. *)
Lemma send_to_display_moves_cursor_back :
  let s := mkGameState (replicate 6 ""%string) (replicate 6 false) 60 false 3 in
  reveal_upto s = 3 /\
  reveal_upto (send_to_display (replicate 6 "prompt"%string) s) = 0.
Proof. split; reflexivity. Qed.

(** C3, amended: [send_to_display] replaces the prompts and puts the cursor
    on [current_index()], or on 5 when all are solved, clamped to 0..5; the
    flags and the timer are untouched.  In every state the program reaches
    the cursor is there already, so only the prompts change.
    [DisplayWindow.set_prompts] on its own changes the prompts only. *)
Theorem send_to_display_frame (entries : list string) :
  (forall s,
     send_to_display entries s =
     set_reveal_upto_field (Z.max 0 (Z.min 5 (cursor_of s)))
       (set_prompts_field entries s)) /\
  (forall acts,
     send_to_display entries (run acts) = set_prompts_field entries (run acts)) /\
  (forall s,
     set_prompts entries s =
     mkGameState entries (correct s) (remaining_seconds s) (timer_running s)
       (reveal_upto s)).
Proof.
  split; [|split].
  - by intros [p c secs running r].
  - intros acts. apply send_to_display_in_order, run_in_order.
  - done.
Qed.

(** C4: from the reset state, [mark_correct(0)] to [mark_correct(5)] in
    order take the cursor through 1, 2, 3, 4, 5, 5; [all_correct()] is false
    up to the fifth call and true after the sixth; [unmark_all] then gives
    [current_index() == 0] and a cursor of 0. *)
Theorem in_order_solve (p : list string) (secs : Z) (running : bool) :
  let s0 := mkGameState p (replicate 6 false) secs running 0 in
  let states := trace s0 (MarkCorrect <$> [0; 1; 2; 3; 4; 5]) in
  reveal_upto <$> states = [0; 1; 2; 3; 4; 5; 5] /\
  all_correct <$> states = [false; false; false; false; false; false; true] /\
  current_index <$> states = [0; 1; 2; 3; 4; 5; -1] /\
  (let s6 := run_from s0 (MarkCorrect <$> [0; 1; 2; 3; 4; 5]) in
   all_correct s6 = true /\
   current_index (unmark_all s6) = 0 /\
   reveal_upto (unmark_all s6) = 0 /\
   all_correct (unmark_all s6) = false).
Proof. repeat split. Qed.

End PyramidSpec.
